(** * Keystone example schemas, hooks and access-control tests

    A shallow embedding of the list configurations, hooks and access
    functions found in this repository:

    - [examples/custom-session-redis/schema.ts]   (module [CustomSession])
    - the union-relationship example schema        (module [UnionTypes])
    - [tests/sandbox/schema.prisma]                (module [Sandbox])
    - [tests/api-tests/relationships/filtering/access-control.test.ts]
                                                   (module [AccessControlTest])

    The framework that interprets these configurations is not part of the
    sources; the parts of it that the statements below need are collected in
    module [Keystone] and are marked as modelled from the specification. *)

From stdpp Require Import gmap strings list.

Local Open Scope string_scope.
Set Warnings "-register-all".

(** ** JavaScript values that may be absent *)

Module JS.

(** A TypeScript type [T | null | undefined]. *)
Inductive nullable (A : Type) : Type :=
| undefined
| null
| val (a : A).
Arguments undefined {A}.
Arguments null {A}.
Arguments val {A} a.

(** [x ?? y] *)
Definition coalesce {A} (x y : nullable A) : nullable A :=
  match x with
  | val a => val a
  | _ => y
  end.

(** [x?.f] for a field [f] that is itself optional. *)
Definition opt_chain {A B} (x : nullable A) (f : A -> nullable B) : nullable B :=
  match x with
  | val a => f a
  | _ => undefined
  end.

(** Truthiness of an object-valued expression: every object is truthy,
    [null] and [undefined] are not. *)
Definition truthy_obj {A} (x : nullable A) : bool :=
  match x with
  | val _ => true
  | _ => false
  end.

(** Truthiness of a [boolean | null | undefined]. *)
Definition truthy_bool (x : nullable bool) : bool :=
  match x with
  | val b => b
  | _ => false
  end.

(** Truthiness of a [string | null | undefined]: the empty string is falsy. *)
Definition truthy_str (x : option string) : bool :=
  match x with
  | Some s => negb (String.eqb s "")
  | None => false
  end.

(** Widening of the two operand types of a [??] into their union. *)
Definition inl_n {A B} (x : nullable A) : nullable (A + B) :=
  match x with
  | val a => val (inl a)
  | null => null
  | undefined => undefined
  end.

Definition inr_n {A B} (x : nullable B) : nullable (A + B) :=
  match x with
  | val b => val (inr b)
  | null => null
  | undefined => undefined
  end.

(** The value is there: neither [null] nor [undefined]. *)
Definition given {A} (x : nullable A) : Prop := exists a, x = val a.

End JS.

Export JS.

(** Item identifiers as the GraphQL API shows them. *)
Definition ID := string.

(** ** The framework's configuration surface and its reading of it

    None of this module is in the sources: only the names the
    configurations import from [@keystone-6/core] are.  The configuration
    types follow the shape of the objects the sources pass to [list],
    [text], [relationship] and [virtual]; the behaviour is modelled from
    the specification and is marked as such. *)

Module Keystone.

(** *** Configuration objects *)

(** A field as the field constructors of [@keystone-6/core/fields] make
    it.  [many] is [false] where the source leaves it out. *)
Inductive FieldConfig :=
| text
| password
| virtual
| relationship (ref : string) (many : bool).

(** ['List.field'] or ['List'] split at the first dot. *)
Definition parse_ref (ref : string) : string * option string :=
  match String.index 0 "." ref with
  | Some n =>
      (String.substring 0 n ref,
       Some (String.substring (S n) (String.length ref - S n) ref))
  | None => (ref, None)
  end.

Fixpoint assoc {A} (k : string) (l : list (string * A)) : option A :=
  match l with
  | [] => None
  | (k', a) :: l' => if String.eqb k k' then Some a else assoc k l'
  end.

Section Model.

(** Item ids are opaque tokens that can only be compared; sessions are
    whatever the application stores. *)
Context {ID : Type} `{!EqDecision ID} {Session : Type}.

Definition id_eqb (a b : ID) : bool := bool_decide (a = b).

(** *** Filters: the [where] input objects *)

Inductive IDFilter :=
| id_equals (i : ID)
| id_in (l : list ID)
| id_not (f : IDFilter).

Inductive StringFilter :=
| str_equals (s : string)
| str_in (l : list string)
| str_not (f : StringFilter).

Inductive Where :=
| where_id (f : IDFilter)
| where_field (name : string) (f : StringFilter)
| where_AND (a b : Where).

(** What an access filter function returns: a boolean or a [where]. *)
Inductive FilterResult :=
| filter_bool (b : bool)
| filter_where (w : Where).

Record Context := { session : option Session; sudo : bool }.

Record Access := {
  operation : Context -> bool;
  filter_query : Context -> FilterResult;
  filter_update : Context -> FilterResult;
  filter_delete : Context -> FilterResult
}.

Record ListConfig := {
  access : Access;
  fields : list (string * FieldConfig)
}.

Definition Config := list (string * ListConfig).

(** Modelled from the spec: [allowAll] of [@keystone-6/core/access],
    the access function that permits everything. *)
Definition allowAll (_ : Context) : bool := true.

(** Modelled from the spec: [unfiltered] of [@keystone-6/core/access],
    the filter function that restricts no row. *)
Definition unfiltered (_ : Context) : FilterResult := filter_bool true.

(** Modelled from the spec: an access object that gives only
    [operation] and some filters leaves the other filters
    unrestricted, and [access: allowAll] permits every operation on
    every row. *)
Definition access_allowAll : Access :=
  {| operation := allowAll; filter_query := unfiltered;
     filter_update := unfiltered; filter_delete := unfiltered |}.

(** *** Rows *)

Record Row := {
  row_id : ID;
  row_text : list (string * string);
  row_ref : list (string * ID)
}.

Fixpoint eval_id_filter (f : IDFilter) (i : ID) : bool :=
  match f with
  | id_equals j => id_eqb i j
  | id_in l => existsb (id_eqb i) l
  | id_not g => negb (eval_id_filter g i)
  end.

Fixpoint eval_string_filter (f : StringFilter) (s : string) : bool :=
  match f with
  | str_equals t => String.eqb s t
  | str_in l => existsb (String.eqb s) l
  | str_not g => negb (eval_string_filter g s)
  end.

(** Modelled from the spec: a row satisfies a [where] when it satisfies
    every condition in it. *)
Fixpoint eval_where (w : Where) (r : Row) : bool :=
  match w with
  | where_id f => eval_id_filter f (row_id r)
  | where_field name f =>
      match assoc name (row_text r) with
      | Some s => eval_string_filter f s
      | None => false
      end
  | where_AND a b => eval_where a r && eval_where b r
  end.

(** Modelled from the spec: "an access filter is a per-operation
    predicate that the framework merges with any caller-supplied query
    filter": the explicit [where] is AND-ed with the implicit access
    filter.  [None] stands for the filter no row satisfies. *)
Definition merge_filter (acc : FilterResult) (explicit : option Where)
    : option (option Where) :=
  match acc with
  | filter_bool false => None
  | filter_bool true => Some explicit
  | filter_where a =>
      match explicit with
      | Some w => Some (Some (where_AND a w))
      | None => Some (Some a)
      end
  end.

Definition eval_merged (m : option (option Where)) (r : Row) : bool :=
  match m with
  | None => false
  | Some None => true
  | Some (Some w) => eval_where w r
  end.

Inductive Operation := op_query | op_create | op_update | op_delete.

Definition access_filter (a : Access) (op : Operation) : Context -> FilterResult :=
  match op with
  | op_query => filter_query a
  | op_update => filter_update a
  | op_delete => filter_delete a
  | op_create => fun _ => filter_bool true
  end.

(** Modelled from the spec: an operation is denied outright when the
    operation-level access check fails. *)
Definition operation_allowed (a : Access) (ctx : Context) : bool :=
  sudo ctx || operation a ctx.

(** Modelled from the spec: the rows of [rows] an operation may see or
    change: none when the operation is denied, otherwise those the
    access filter, merged with the caller's [where], lets through.  A
    [sudo] context bypasses access control. *)
Definition permitted_rows (a : Access) (op : Operation) (ctx : Context)
    (explicit : option Where) (rows : list Row) : list Row :=
  if sudo ctx then List.filter (eval_merged (Some explicit)) rows
  else if operation a ctx then
    List.filter (eval_merged (merge_filter (access_filter a op ctx) explicit)) rows
  else [].

(** *** The store and the query engine *)

(** One table per list, in creation order; [joins] holds the pairs of a
    relationship that has no single-valued side: [(rel, a, b)] says that
    field [rel] of item [a] points to item [b]. *)
Record Db := {
  tables : list (string * list Row);
  joins : list (string * (ID * ID));
  counter : nat
}.

Definition empty_db : Db := {| tables := []; joins := []; counter := 0 |}.

Fixpoint assoc_set {A} (k : string) (v : A) (l : list (string * A))
    : list (string * A) :=
  match l with
  | [] => [(k, v)]
  | (k', a) :: l' =>
      if String.eqb k k' then (k, v) :: l' else (k', a) :: assoc_set k v l'
  end.

Definition table (db : Db) (listKey : string) : list Row :=
  default [] (assoc listKey (tables db)).

Definition update_table (listKey : string) (f : list Row -> list Row) (db : Db) : Db :=
  {| tables := assoc_set listKey (f (table db listKey)) (tables db);
     joins := joins db;
     counter := counter db |}.

Definition add_joins (js : list (string * (ID * ID))) (db : Db) : Db :=
  {| tables := tables db; joins := (joins db ++ js)%list; counter := counter db |}.

Definition set_ref (f : string) (i : ID) (r : Row) : Row :=
  {| row_id := row_id r; row_text := row_text r;
     row_ref := assoc_set f i (row_ref r) |}.

Definition field_config (cfg : Config) (listKey f : string) : option FieldConfig :=
  match assoc listKey cfg with
  | Some lc => assoc f (fields lc)
  | None => None
  end.

Definition rel_name (listKey f : string) : string := listKey ++ "." ++ f.

(** Whether the field a two-sided [ref] names is single-valued. *)
Definition other_side_single (cfg : Config) (ref : string) : bool :=
  match parse_ref ref with
  | (foreign, Some g) =>
      match field_config cfg foreign g with
      | Some (relationship _ false) => true
      | _ => false
      end
  | (_, None) => false
  end.

Inductive Cardinality := one_to_one | one_to_many | many_to_one | many_to_many.

(** The kind of a relationship, read off the [many] flags of its two
    sides: it is many-to-many when both sides are [many: true] (or when a
    [many: true] field names no other side). *)
Definition cardinality (cfg : Config) (listKey f : string) : option Cardinality :=
  match field_config cfg listKey f with
  | Some (relationship ref many) =>
      match parse_ref ref with
      | (foreign, Some g) =>
          match field_config cfg foreign g with
          | Some (relationship _ many') =>
              Some (match many, many' with
                    | true, true => many_to_many
                    | true, false => one_to_many
                    | false, true => many_to_one
                    | false, false => one_to_one
                    end)
          | _ => None
          end
      | (_, None) => Some (if many then many_to_many else many_to_one)
      end
  | _ => None
  end.

Definition points_to (f : string) (i : ID) (r : Row) : bool :=
  match assoc f (row_ref r) with
  | Some j => id_eqb j i
  | None => false
  end.

(** Modelled from the spec: the items a relationship field of [row]
    refers to, before any filtering.  A single-valued side holds a
    reference on its own row; a [many] side facing a single-valued side
    collects the rows that refer back; otherwise the pairs are in
    [joins]. *)
Definition related (cfg : Config) (db : Db) (listKey : string) (row : Row)
    (f : string) : list Row :=
  match field_config cfg listKey f with
  | Some (relationship ref many) =>
      let foreign := (parse_ref ref).1 in
      let frows := table db foreign in
      if many then
        if other_side_single cfg ref then
          List.filter (points_to (default "" (parse_ref ref).2) (row_id row)) frows
        else
          List.filter
            (fun r => existsb
               (fun j => String.eqb j.1 (rel_name listKey f)
                         && id_eqb j.2.1 (row_id row) && id_eqb j.2.2 (row_id r))
               (joins db))
            frows
      else
        match assoc f (row_ref row) with
        | Some i => List.filter (fun r => id_eqb (row_id r) i) frows
        | None => []
        end
  | _ => []
  end.

(** Modelled from the spec: [connect] of the items [ids] to field [f]
    of the item [i] of list [listKey]. *)
Definition connect_to (cfg : Config) (listKey : string) (i : ID) (f : string)
    (ids : list ID) (db : Db) : Db :=
  match field_config cfg listKey f with
  | Some (relationship ref many) =>
      let foreign := (parse_ref ref).1 in
      let back := (parse_ref ref).2 in
      if many then
        if other_side_single cfg ref then
          update_table foreign
            (List.map (fun r => if existsb (id_eqb (row_id r)) ids
                                then set_ref (default "" back) i r else r))
            db
        else
          add_joins
            (List.map (fun x => (rel_name listKey f, (i, x))) ids
             ++ match back with
                | Some g => List.map (fun x => (rel_name foreign g, (x, i))) ids
                | None => []
                end)%list
            db
      else
        match ids with
        | x :: _ =>
            let db' :=
              update_table listKey
                (List.map (fun r => if id_eqb (row_id r) i then set_ref f x r else r))
                db in
            match back with
            | Some g =>
                if other_side_single cfg ref then
                  update_table foreign
                    (List.map (fun r => if id_eqb (row_id r) x then set_ref g i r else r))
                    db'
                else db'
            | None => db'
            end
        | [] => db
        end
  | _ => db
  end.

(** The source of fresh ids (cuids in the framework): the [n]-th item
    created gets [genId n]. *)
Context (genId : nat -> ID).

(** The [data] of a [createOne]: scalar values and [connect] lists. *)
Record CreateData := {
  data_text : list (string * string);
  data_connect : list (string * list ID)
}.

(** Modelled from the spec: [context.sudo().query.L.createOne({ data })],
    which returns the new item's id. *)
Definition createOne (cfg : Config) (listKey : string) (data : CreateData)
    (db : Db) : ID * Db :=
  let i := genId (counter db) in
  let row := {| row_id := i; row_text := data_text data; row_ref := [] |} in
  let db1 :=
    {| tables := assoc_set listKey (table db listKey ++ [row])%list (tables db);
       joins := joins db;
       counter := S (counter db) |} in
  (i, fold_left (fun d c => connect_to cfg listKey i c.1 c.2 d) (data_connect data) db1).

(** A GraphQL selection: a field, its [where] argument if any, and the
    selection on the items it yields. *)
Inductive Selection := Sel (f : string) (where_ : option Where) (sub : list Selection).

Inductive Json :=
| JNull
| JId (i : ID)
| JStr (s : string)
| JArr (l : list Json)
| JObj (l : list (string * Json)).

Definition visible (cfg : Config) (ctx : Context) (listKey : string)
    (explicit : option Where) (rows : list Row) : list Row :=
  match assoc listKey cfg with
  | Some lc => permitted_rows (access lc) op_query ctx explicit rows
  | None => []
  end.

(** Modelled from the spec: resolution of one selected field of an
    item.  Related items are those the relationship holds, restricted
    by the foreign list's query access filter AND-ed with the explicit
    [where] of the selection. *)
Fixpoint resolve_field (cfg : Config) (db : Db) (ctx : Context)
    (s : Selection) (listKey : string) (row : Row) : string * Json :=
  match s with
  | Sel f w sub =>
      (f,
       if String.eqb f "id" then JId (row_id row)
       else
         match field_config cfg listKey f with
         | Some (relationship ref many) =>
             let foreign := (parse_ref ref).1 in
             let rows := visible cfg ctx foreign w (related cfg db listKey row f) in
             let objs :=
               List.map
                 (fun r => JObj (List.map (fun s' => resolve_field cfg db ctx s' foreign r) sub))
                 rows in
             if many then JArr objs
             else match objs with o :: _ => o | [] => JNull end
         | Some text =>
             match assoc f (row_text row) with
             | Some v => JStr v
             | None => JNull
             end
         | _ => JNull
         end)
  end.

(** Modelled from the spec: [context.query.L.findOne({ where: { id }, query })]. *)
Definition findOne (cfg : Config) (db : Db) (ctx : Context) (listKey : string)
    (i : ID) (query : list Selection) : Json :=
  match visible cfg ctx listKey (Some (where_id (id_equals i))) (table db listKey) with
  | r :: _ => JObj (List.map (fun s => resolve_field cfg db ctx s listKey r) query)
  | [] => JNull
  end.

End Model.

Arguments IDFilter : clear implicits.
Arguments Where : clear implicits.
Arguments FilterResult : clear implicits.
Arguments Context : clear implicits.
Arguments Access : clear implicits.
Arguments ListConfig : clear implicits.
Arguments Config : clear implicits.
Arguments Row : clear implicits.
Arguments Db : clear implicits.
Arguments CreateData : clear implicits.
Arguments Selection : clear implicits.
Arguments Json : clear implicits.

(** *** Mutations and validation hooks *)

Section Mutation.

Context {Input Store Item : Type}.

(** Modelled from the spec: [addValidationError], the hook argument the
    framework supplies; it records the message. *)
Definition addValidationError (msg : string) (errors : list string) : list string :=
  (errors ++ [msg])%list.

(** A structured GraphQL error: where it arose and what was reported. *)
Record GraphQLError := {
  error_path : string;
  error_messages : list string
}.

Inductive MutationResult :=
| mutation_data (item : Item)
| mutation_errors (e : GraphQLError).

(** Modelled from the spec: a mutation runs the list's validate hook;
    any validation error aborts the mutation, nothing is written, and a
    structured GraphQL error is returned.  [write] is what the
    framework and its ORM do otherwise. *)
Definition run_mutation (name : string)
    (validate : (string -> list string -> list string) -> Input -> list string -> list string)
    (write : Input -> Store -> Item * Store)
    (input : Input) (store : Store) : MutationResult * Store :=
  match validate addValidationError input [] with
  | [] => let r := write input store in (mutation_data r.1, r.2)
  | errors =>
      (mutation_errors {| error_path := name; error_messages := errors |}, store)
  end.

End Mutation.

Arguments MutationResult : clear implicits.

End Keystone.

(** ** The union-relationship example: lists [Post], [Link] and [Media] *)

Module UnionTypes.

(** *** Items as the database holds them *)

Record PostItem := { post_id : ID; post_title : string; post_content : string }.
Record LinkItem := { link_id : ID; link_title : string; link_url : string }.

(** A [Media] item: [label] is virtual and has no column; the two
    relationships are held as foreign keys. *)
Record MediaItem := {
  media_id : ID;
  media_description : string;
  postId : option ID;
  linkId : option ID
}.

(** [context.db]: one table per list, keyed by item id. *)
Record Db := {
  db_Post : gmap ID PostItem;
  db_Link : gmap ID LinkItem;
  db_Media : gmap ID MediaItem
}.

(** [context.db.Post.findOne({ where: { id } })]; the lists are [allowAll]. *)
Definition Post_findOne (db : Db) (id : ID) : option PostItem := db_Post db !! id.
Definition Link_findOne (db : Db) (id : ID) : option LinkItem := db_Link db !! id.

(** *** [Media.label]: the virtual field's [resolve] *)

(** The value of [x] inside [if (x) { ... }] for a [string | null]:
    [null] and the empty string are falsy. *)
Definition if_truthy (x : option ID) : option ID :=
  match x with
  | Some s => if truthy_str (Some s) then Some s else None
  | None => None
  end.

Definition resolve (item : MediaItem) (context : Db) : string :=
  let postId := postId item in
  let linkId := linkId item in
  match if_truthy postId with
  | Some postId => default "[missing]" (post_title <$> Post_findOne context postId)
  | None =>
      match if_truthy linkId with
      | Some linkId => default "[missing]" (link_title <$> Link_findOne context linkId)
      | None => "?"
      end
  end.

(** *** Relationship inputs *)

Record WhereUniqueInput := { where_id : ID }.

(** Field values of a nested create. *)
Definition CreateInput := list (string * string).

(** [{ create?, connect? }] *)
Record RelateToOneForCreateInput := {
  c_create : nullable CreateInput;
  c_connect : nullable WhereUniqueInput
}.

(** [{ create?, connect?, disconnect? }] *)
Record RelateToOneForUpdateInput := {
  create : nullable CreateInput;
  connect : nullable WhereUniqueInput;
  disconnect : nullable bool
}.

Record MediaCreateInput := {
  mc_description : nullable string;
  mc_post : nullable RelateToOneForCreateInput;
  mc_link : nullable RelateToOneForCreateInput
}.

Record MediaUpdateInput := {
  description : nullable string;
  post : nullable RelateToOneForUpdateInput;
  link : nullable RelateToOneForUpdateInput
}.

(** [x => x?.connect ?? x?.create], as a filter predicate, on create inputs. *)
Definition selects_c (x : nullable RelateToOneForCreateInput) : bool :=
  truthy_obj (coalesce (inl_n (opt_chain x c_connect))
                       (inr_n (opt_chain x c_create))).

(** The same arrow function on update inputs. *)
Definition selects (x : nullable RelateToOneForUpdateInput) : bool :=
  truthy_obj (coalesce (inl_n (opt_chain x connect))
                       (inr_n (opt_chain x create))).

(** [x => x?.disconnect] *)
Definition disconnects (x : nullable RelateToOneForUpdateInput) : bool :=
  truthy_bool (opt_chain x disconnect).

Definition msg_required : string := "A media type relationship is required".
Definition msg_only_one : string := "Only one media type relationship can be selected".
Definition msg_cannot_change : string := "Cannot change media type relationship type".

(** *** [hooks.validate] *)

Section Validate.

(** The hook argument [addValidationError], supplied by the framework,
    acting on whatever the framework keeps as validation state. *)
Context {V : Type} (addValidationError : string -> V -> V).

Definition validate_create (inputData : MediaCreateInput) (st : V) : V :=
  let post := mc_post inputData in
  let link := mc_link inputData in
  let values := List.filter selects_c [post; link] in
  if Nat.eqb (length values) 0 then addValidationError msg_required st
  else if Nat.ltb 1 (length values) then addValidationError msg_only_one st
  else st.

Definition validate_update (inputData : MediaUpdateInput) (st : V) : V :=
  let post := post inputData in
  let link := link inputData in
  if existsb disconnects [post; link] then addValidationError msg_cannot_change st
  else
    let values := List.filter selects [post; link] in
    if Nat.ltb 1 (length values) then addValidationError msg_only_one st
    else st.

End Validate.

(** *** [hooks.resolveInput.update] *)

Inductive RelKey := KPost | KLink.

(** [{ disconnect: true }] *)
Definition disconnect_true : RelateToOneForUpdateInput :=
  {| create := undefined; connect := undefined; disconnect := val true |}.

(** [{ ...data, [key]: value }] *)
Definition set_key (key : RelKey) (value : nullable RelateToOneForUpdateInput)
    (data : MediaUpdateInput) : MediaUpdateInput :=
  match key with
  | KPost => {| description := description data; post := value; link := link data |}
  | KLink => {| description := description data; post := post data; link := value |}
  end.

(** [const { post, link, ...rest } = resolvedData]: [rest] has neither key. *)
Definition rest_of (resolvedData : MediaUpdateInput) : MediaUpdateInput :=
  {| description := description resolvedData; post := undefined; link := undefined |}.

(** The body of the [for ... of Object.entries({ post, link })] loop. *)
Fixpoint resolve_loop (rest : MediaUpdateInput)
    (entries : list (RelKey * nullable RelateToOneForUpdateInput)) : MediaUpdateInput :=
  match entries with
  | [] => rest
  | (key, value) :: entries' =>
      if negb (truthy_obj value) then resolve_loop rest entries'
      else if truthy_bool (opt_chain value disconnect) then resolve_loop rest entries'
      else
        set_key key value
          (set_key KLink (val disconnect_true)
             (set_key KPost (val disconnect_true) rest))
  end.

Definition resolveInput_update (resolvedData : MediaUpdateInput) : MediaUpdateInput :=
  let post := post resolvedData in
  let link := link resolvedData in
  let rest := rest_of resolvedData in
  resolve_loop rest [(KPost, post); (KLink, link)].

(** *** What an update does to the item *)

(** Modelled from the spec: the ORM's nested write for a to-one
    relationship, which is not in the sources: [connect] makes the item
    refer to the given id, [create] to the id of the item created for it,
    [disconnect: true] clears the reference, and an absent value leaves
    it as it is. *)
Definition apply_relation (created : ID) (current : option ID)
    (x : nullable RelateToOneForUpdateInput) : option ID :=
  match x with
  | val r =>
      match connect r with
      | val w => Some (where_id w)
      | _ =>
          match create r with
          | val _ => Some created
          | _ => if truthy_bool (disconnect r) then None else current
          end
      end
  | _ => current
  end.

(** Modelled from the spec: the item after the update has written
    [data]; [newPost] and [newLink] are the ids a nested create would
    get. *)
Definition apply_update (newPost newLink : ID) (data : MediaUpdateInput)
    (item : MediaItem) : MediaItem :=
  {| media_id := media_id item;
     media_description :=
       match description data with
       | val d => d
       | _ => media_description item
       end;
     postId := apply_relation newPost (postId item) (post data);
     linkId := apply_relation newLink (linkId item) (link data) |}.

(** Some relationship inputs: [{ connect: { id } }], [{}] and
    [{ connect: { id }, disconnect: true }]. *)
Definition connect_to_id (i : ID) : RelateToOneForUpdateInput :=
  {| create := undefined; connect := val {| where_id := i |}; disconnect := undefined |}.

Definition empty_input : RelateToOneForUpdateInput :=
  {| create := undefined; connect := undefined; disconnect := undefined |}.

Definition connect_and_disconnect (i : ID) : RelateToOneForUpdateInput :=
  {| create := undefined; connect := val {| where_id := i |}; disconnect := val true |}.

(** *** Vocabulary for statements about relationship inputs *)

(** The input carries a [connect] or a [create] operation. *)
Definition carries_c (x : nullable RelateToOneForCreateInput) : Prop :=
  exists r, x = val r /\ (given (c_connect r) \/ given (c_create r)).

Definition carries (x : nullable RelateToOneForUpdateInput) : Prop :=
  exists r, x = val r /\ (given (connect r) \/ given (create r)).

(** The input carries a [disconnect] operation. *)
Definition carries_disconnect (x : nullable RelateToOneForUpdateInput) : Prop :=
  exists r, x = val r /\ disconnect r = val true.

(** A relationship value with at most one operation: it does not both
    connect or create and disconnect.  The framework refuses any other
    value before the hooks run. *)
Definition one_operation (x : nullable RelateToOneForUpdateInput) : Prop :=
  ~ (carries x /\ carries_disconnect x).

(** A relationship value that says something: one that is supplied
    carries a [connect], a [create] or a [disconnect]. *)
Definition says_something (x : nullable RelateToOneForUpdateInput) : Prop :=
  given x -> carries x \/ carries_disconnect x.

(** The item refers to a post and to no link, or the other way round. *)
Definition only_post (item : MediaItem) : Prop :=
  is_Some (postId item) /\ linkId item = None.

Definition only_link (item : MediaItem) : Prop :=
  postId item = None /\ is_Some (linkId item).

(** A reference that is set: an id, which is never the empty string. *)
Definition is_set (x : option ID) (i : ID) : Prop := x = Some i /\ i <> "".

Definition unset (x : option ID) : Prop := x = None \/ x = Some "".

(** *** The list configuration itself *)

Definition lists : Keystone.Config ID unit :=
  [ ("Post",
     {| Keystone.access := Keystone.access_allowAll;
        Keystone.fields := [ ("title", Keystone.text); ("content", Keystone.text) ] |});
    ("Link",
     {| Keystone.access := Keystone.access_allowAll;
        Keystone.fields := [ ("title", Keystone.text); ("url", Keystone.text) ] |});
    ("Media",
     {| Keystone.access := Keystone.access_allowAll;
        Keystone.fields :=
          [ ("label", Keystone.virtual);
            ("description", Keystone.text);
            ("post", Keystone.relationship "Post" false);
            ("link", Keystone.relationship "Link" false) ] |}) ].

End UnionTypes.

(** ** [examples/custom-session-redis/schema.ts] *)

Module CustomSession.

Import Keystone.

Record SessionData := { something : string }.

Record Session := {
  listKey : string;
  itemId : string;
  data : SessionData
}.

Definition hasSession (args : Context Session) : bool :=
  match session args with
  | Some _ => true
  | None => false
  end.

Definition isSameUserFilter (args : Context Session) : FilterResult ID :=
  match session args with
  | None => filter_bool false
  | Some session => filter_where (where_id (id_equals (itemId session)))
  end.

Definition lists : Config ID Session :=
  [ ("User",
     {| access :=
          {| operation := hasSession;
             filter_query := unfiltered;
             filter_update := isSameUserFilter;
             filter_delete := isSameUserFilter |};
        fields := [ ("name", text); ("password", password) ] |}) ].

Definition User_access : Access ID Session :=
  default access_allowAll (access <$> assoc "User" lists).

End CustomSession.

(** ** [tests/sandbox/schema.prisma] *)

Module Sandbox.

(** A value in a block: a literal or [env("VAR")]. *)
Inductive Value :=
| lit (s : string)
| env (var : string).

Record Block := {
  block_name : string;
  block_entries : list (string * Value)
}.

Inductive Arity := required | optional | many.

(** A model field: its name, its type and whether the type is followed
    by [?] or [[]].  Attributes are left out. *)
Record Field := {
  field_name : string;
  field_type : string;
  field_arity : Arity
}.

Record Model := {
  model_name : string;
  model_fields : list Field
}.

Definition F (n t : string) (a : Arity) : Field :=
  {| field_name := n; field_type := t; field_arity := a |}.

Definition datasource : Block :=
  {| block_name := "postgresql";
     block_entries :=
       [ ("url", env "DATABASE_URL");
         ("shadowDatabaseUrl", env "SHADOW_DATABASE_URL");
         ("provider", lit "postgresql") ] |}.

Definition generator : Block :=
  {| block_name := "client";
     block_entries :=
       [ ("provider", lit "prisma-client-js");
         ("output", lit "node_modules/myprisma") ] |}.

Definition Thing : Model :=
  {| model_name := "Thing";
     model_fields :=
       [ F "id" "String" required;
         F "text" "String" required;
         F "timestamp" "DateTime" optional;
         F "structure" "Json" required;
         F "structureNested" "Json" required;
         F "structureRelationships" "Json" required;
         F "checkbox" "Boolean" required;
         F "password" "String" optional;
         F "toOneRelationship" "User" optional;
         F "toOneRelationshipId" "String" optional;
         F "toOneRelationshipAlternateLabel" "User" optional;
         F "toOneRelationshipAlternateLabelId" "String" optional;
         F "toManyRelationship" "Todo" many;
         F "toOneRelationshipCard" "User" optional;
         F "toOneRelationshipCardId" "String" optional;
         F "toManyRelationshipCard" "Todo" many;
         F "calendarDay" "DateTime" optional;
         F "select" "String" optional;
         F "selectOnSide" "String" optional;
         F "selectOnSideItemViewOnly" "String" optional;
         F "selectSegmentedControl" "String" optional;
         F "multiselect" "Json" required;
         F "json" "Json" optional;
         F "integer" "Int" optional;
         F "decimal" "Decimal" optional;
         F "bigInt" "BigInt" optional;
         F "float" "Float" optional;
         F "image_id" "String" optional;
         F "image_extension" "String" optional;
         F "image_filesize" "Int" optional;
         F "image_width" "Int" optional;
         F "image_height" "Int" optional;
         F "file_filesize" "Int" optional;
         F "file_filename" "String" optional;
         F "document" "Json" required ] |}.

Definition Todo : Model :=
  {| model_name := "Todo";
     model_fields :=
       [ F "id" "String" required;
         F "label" "String" required;
         F "isComplete" "Boolean" required;
         F "assignedTo" "User" optional;
         F "assignedToId" "String" optional;
         F "finishBy" "DateTime" optional;
         F "createdAt" "DateTime" optional;
         F "updatedAt" "DateTime" optional;
         F "from_Thing_toManyRelationship" "Thing" many;
         F "from_Thing_toManyRelationshipCard" "Thing" many ] |}.

Definition User : Model :=
  {| model_name := "User";
     model_fields :=
       [ F "id" "String" required;
         F "name" "String" required;
         F "email" "String" required;
         F "password" "String" optional;
         F "tasks" "Todo" many;
         F "createdAt" "DateTime" optional;
         F "updatedAt" "DateTime" optional;
         F "from_Thing_toOneRelationship" "Thing" many;
         F "from_Thing_toOneRelationshipAlternateLabel" "Thing" many;
         F "from_Thing_toOneRelationshipCard" "Thing" many ] |}.

Definition Settings : Model :=
  {| model_name := "Settings";
     model_fields :=
       [ F "id" "Int" required;
         F "websiteName" "String" required;
         F "copyrightText" "String" required;
         F "something" "BigInt" optional ] |}.

Record Schema := {
  schema_datasource : Block;
  schema_generator : Block;
  schema_models : list Model
}.

Definition schema : Schema :=
  {| schema_datasource := datasource;
     schema_generator := generator;
     schema_models := [Thing; Todo; User; Settings] |}.

(** The environment variables a block reads, with the entry each one
    is read as. *)
Definition env_reads (b : Block) : list (string * string) :=
  omap (fun e => match e.2 with
                 | env var => Some (e.1, var)
                 | lit _ => None
                 end) (block_entries b).

End Sandbox.

(** ** The data model the repository defines *)

(** The names of the lists and models defined in the configuration files
    and in the generated schema. *)
Definition data_model_names : list string :=
  (List.map fst CustomSession.lists
   ++ List.map fst UnionTypes.lists
   ++ List.map Sandbox.model_name (Sandbox.schema_models Sandbox.schema))%list.

(** ** [access-control.test.ts]: relationship filtering with access control *)

Module AccessControlTest.

Import Keystone.

Section Test.

Context {ID : Type} `{!EqDecision ID}.

(** The ids the store hands out, and the values [sampleOne] draws, in
    the order they are drawn. *)
Context (genId : nat -> ID) (sample : nat -> string).

Definition postNames : list string := ["Post 1"; "Post 2"; "Post 3"].

(** [setupTestRunner({ config: { lists } })] *)
Definition lists : Config ID unit :=
  [ ("UserToPostLimitedRead",
     {| access :=
          {| operation := allowAll;
             filter_query := fun _ =>
               filter_where (where_field "username" (str_not (str_equals "bad")));
             filter_update := unfiltered;
             filter_delete := unfiltered |};
        fields :=
          [ ("username", text);
            ("posts", relationship "PostLimitedRead.author" true) ] |});
    ("PostLimitedRead",
     {| access :=
          {| operation := allowAll;
             filter_query := fun _ =>
               filter_where (where_field "name" (str_in (option_list (postNames !! 1))));
             filter_update := unfiltered;
             filter_delete := unfiltered |};
        fields :=
          [ ("name", text);
            ("content", text);
            ("author", relationship "UserToPostLimitedRead.posts" false) ] |}) ].

(** *** The test bodies, as computations on the store

    A test threads the store and the number of samples drawn so far; an
    out-of-range index aborts it. *)

Definition M (A : Type) : Type := Db ID * nat -> option (A * (Db ID * nat)).

Definition ret {A} (a : A) : M A := fun st => Some (a, st).

Definition bind {A B} (m : M A) (k : A -> M B) : M B :=
  fun st => match m st with
            | Some (a, st') => k a st'
            | None => None
            end.

Notation "x <- m ;; k" := (bind m (fun x => k))
  (at level 100, m at next level, right associativity).

Fixpoint mapM {A B} (f : A -> M B) (l : list A) : M (list B) :=
  match l with
  | [] => ret []
  | a :: l' => b <- f a ;; bs <- mapM f l' ;; ret (b :: bs)
  end.

Definition sampleOne : M string :=
  fun st => Some (sample st.2, (st.1, S st.2)).

Definition at_index {A} (l : list A) (n : nat) : M A :=
  fun st => match l !! n with
            | Some a => Some (a, st)
            | None => None
            end.

Definition context : Context unit := {| session := None; sudo := false |}.
Definition context_sudo : Context unit := {| session := None; sudo := true |}.

Definition sudo_createOne (listKey : string) (data : CreateData ID) : M ID :=
  fun st => let r := createOne genId lists listKey data st.1 in Some (r.1, (r.2, st.2)).

Definition query_findOne (listKey : string) (i : ID) (query : list (Selection ID))
    : M (Json ID) :=
  fun st => Some (findOne lists st.1 context listKey i query, st).

(** What a test leaves for its [expect]: the queried item and the
    values the expectation is written with. *)
Record Outcome := {
  item : Json ID;
  user : ID;
  username : string;
  postIds : list ID
}.

(** The set-up both tests share: three posts, one user connected to the
    second and the third. *)
Definition setup : M (list ID * string * ID) :=
  posts <- mapM (fun name =>
             postContent <- sampleOne ;;
             sudo_createOne "PostLimitedRead"
               {| data_text := [("content", postContent); ("name", name)];
                  data_connect := [] |}) postNames ;;
  let postIds := posts in
  username <- sampleOne ;;
  p1 <- at_index postIds 1 ;;
  p2 <- at_index postIds 2 ;;
  user <- sudo_createOne "UserToPostLimitedRead"
            {| data_text := [("username", username)];
               data_connect := [("posts", [p1; p2])] |} ;;
  ret (postIds, username, user).

(** ['id username posts { id author { id username } }'] *)
Definition query_implicit : list (Selection ID) :=
  [ Sel "id" None [];
    Sel "username" None [];
    Sel "posts" None
      [ Sel "id" None [];
        Sel "author" None [ Sel "id" None []; Sel "username" None [] ] ] ].

(** [id username posts(where: { id: { in: [postIds[2]] } }) { id }] *)
Definition query_explicit (p2 : ID) : list (Selection ID) :=
  [ Sel "id" None [];
    Sel "username" None [];
    Sel "posts" (Some (where_id (id_in [p2]))) [ Sel "id" None [] ] ].

(** test: implicitly filters to only the IDs in the database by default *)
Definition test_implicit : M Outcome :=
  s <- setup ;;
  let '(postIds, username, user) := s in
  item <- query_findOne "UserToPostLimitedRead" user query_implicit ;;
  ret {| item := item; user := user; username := username; postIds := postIds |}.

(** test: explicitly filters when given a `where` clause *)
Definition test_explicit : M Outcome :=
  s <- setup ;;
  let '(postIds, username, user) := s in
  p2 <- at_index postIds 2 ;;
  item <- query_findOne "UserToPostLimitedRead" user (query_explicit p2) ;;
  ret {| item := item; user := user; username := username; postIds := postIds |}.

Definition run {A} (m : M A) : option A := fst <$> m (empty_db, 0).

End Test.

End AccessControlTest.

(** ** The example's server configuration *)

Module ExampleConfig.

(** [process.env]: a variable is a string or is not there. *)
Definition process_env (env : gmap string string) (name : string) : nullable string :=
  match env !! name with
  | Some v => val v
  | None => undefined
  end.

(** [db.url]: [process.env.DATABASE_URL ?? 'file:./keystone-example.db'] *)
Definition url (env : gmap string string) : nullable string :=
  coalesce (process_env env "DATABASE_URL") (val "file:./keystone-example.db").

End ExampleConfig.

(** ** String primitives the resolvers of the virtual-fields guide use *)

Module JSString.

(** An index argument of [slice] brought into [0 .. len]: a negative one
    counts from the end. *)
Definition clamp_index (len : nat) (i : Z) : nat :=
  if (i <? 0)%Z then Z.to_nat (Z.max (Z.of_nat len + i) 0)
  else Nat.min (Z.to_nat i) len.

(** [s.slice(start, end)] *)
Definition slice (s : string) (start end_ : Z) : string :=
  let len := String.length s in
  let from := clamp_index len start in
  let to := clamp_index len end_ in
  String.substring from (to - from) s.

(** [s.split(sep)] for a non-empty [sep], read left to right; [skip]
    counts the characters of a separator just matched that are still to be
    passed over. *)
Fixpoint split_from (sep s : string) (skip : nat) : list string :=
  match s with
  | EmptyString => [EmptyString]
  | String c s' =>
      match skip with
      | S k => split_from sep s' k
      | O =>
          if String.prefix sep s then
            EmptyString :: split_from sep s' (String.length sep - 1)
          else
            match split_from sep s' 0 with
            | piece :: pieces => String c piece :: pieces
            | [] => [String c EmptyString]
            end
      end
  end.

(** [s.split(sep)]: with an empty separator, the characters of [s]. *)
Definition split (sep s : string) : list string :=
  match sep with
  | EmptyString => List.map (fun c => String c EmptyString) (String.list_ascii_of_string s)
  | _ => split_from sep s 0
  end.

(** The number of occurrences of a character. *)
Fixpoint count_char (c : Ascii.ascii) (s : string) : nat :=
  match s with
  | EmptyString => 0
  | String a s' => (if Ascii.eqb a c then 1 else 0) + count_char c s'
  end.

(** The space and the full stop. *)
Definition SPACE : Ascii.ascii := Ascii.Ascii false false false false false true false false.
Definition DOT : Ascii.ascii := Ascii.Ascii false true true true false true false false.

(** The line feed. *)
Definition LF : Ascii.ascii := Ascii.Ascii false true false true false false false false.

(** 1 when the string begins with a line feed, 0 otherwise. *)
Definition starts_with_LF (s : string) : nat :=
  match s with
  | String a _ => if Ascii.eqb a LF then 1 else 0
  | EmptyString => 0
  end.

End JSString.

(** ** The resolvers of the virtual-fields guide *)

Module VirtualFieldsGuide.

Import JSString.

(** [Post.excerpt]: [item.content] is a string or null, [length] a GraphQL
    [Int!]. *)
Definition excerpt (content : option string) (length : Z) : option string :=
  if negb (truthy_str content) then None
  else
    match content with
    | Some content =>
        if (Z.of_nat (String.length content) <=? length)%Z then Some content
        else Some (slice content 0 (length - 3) ++ "...")
    | None => None
    end.

Record PostCounts := {
  words : nat;
  sentences : nat;
  paragraphs : nat
}.

(** [Post.counts] *)
Definition counts (item_content : option string) : PostCounts :=
  let content := if truthy_str item_content then default "" item_content else "" in
  {| words := length (split " " content);
     sentences := length (split "." content);
     paragraphs := length (split (String LF (String LF EmptyString)) content) |}.

End VirtualFieldsGuide.

(** * Properties *)

(** ** The definitions at work *)

Example parse_ref_two_sided :
  Keystone.parse_ref "PostLimitedRead.author" = ("PostLimitedRead", Some "author").
Proof. reflexivity. Qed.

Example parse_ref_one_sided : Keystone.parse_ref "Post" = ("Post", None).
Proof. reflexivity. Qed.

Example media_post_is_many_to_one :
  Keystone.cardinality UnionTypes.lists "Media" "post" = Some Keystone.many_to_one.
Proof. reflexivity. Qed.

Example validate_create_both :
  UnionTypes.validate_create Keystone.addValidationError
    {| UnionTypes.mc_description := undefined;
       UnionTypes.mc_post :=
         val {| UnionTypes.c_create := val [("title", "A post")];
                UnionTypes.c_connect := undefined |};
       UnionTypes.mc_link :=
         val {| UnionTypes.c_create := undefined;
                UnionTypes.c_connect := val {| UnionTypes.where_id := "l1" |} |} |} []
  = ["Only one media type relationship can be selected"].
Proof. reflexivity. Qed.

Example validate_create_one :
  UnionTypes.validate_create Keystone.addValidationError
    {| UnionTypes.mc_description := val "a link";
       UnionTypes.mc_post := null;
       UnionTypes.mc_link :=
         val {| UnionTypes.c_create := undefined;
                UnionTypes.c_connect := val {| UnionTypes.where_id := "l1" |} |} |} []
  = [].
Proof. reflexivity. Qed.

Example resolveInput_update_both_disconnect :
  UnionTypes.resolveInput_update
    {| UnionTypes.description := val "text";
       UnionTypes.post := val UnionTypes.disconnect_true;
       UnionTypes.link := val UnionTypes.disconnect_true |}
  = {| UnionTypes.description := val "text";
       UnionTypes.post := undefined;
       UnionTypes.link := undefined |}.
Proof. reflexivity. Qed.

(** ** The [Media] hooks *)

Section MediaHooks.

Import UnionTypes.

Lemma selects_c_carries (x : nullable RelateToOneForCreateInput) :
  selects_c x = true <-> carries_c x.
Proof.
  unfold selects_c, carries_c, given. split.
  - destruct x as [| |r]; simpl; try discriminate.
    intros H. exists r. split; [reflexivity|].
    destruct (c_connect r) as [| |w]; simpl in H; eauto;
      destruct (c_create r) as [| |c]; simpl in H; eauto; discriminate.
  - intros (r & -> & [[w Hw]|[c Hc]]); simpl.
    + rewrite Hw. reflexivity.
    + rewrite Hc. destruct (c_connect r); reflexivity.
Qed.

Lemma selects_carries (x : nullable RelateToOneForUpdateInput) :
  selects x = true <-> carries x.
Proof.
  unfold selects, carries, given. split.
  - destruct x as [| |r]; simpl; try discriminate.
    intros H. exists r. split; [reflexivity|].
    destruct (connect r) as [| |w]; simpl in H; eauto;
      destruct (create r) as [| |c]; simpl in H; eauto; discriminate.
  - intros (r & -> & [[w Hw]|[c Hc]]); simpl.
    + rewrite Hw. reflexivity.
    + rewrite Hc. destruct (connect r); reflexivity.
Qed.

Lemma disconnects_carries (x : nullable RelateToOneForUpdateInput) :
  disconnects x = true <-> carries_disconnect x.
Proof.
  unfold disconnects, carries_disconnect. split.
  - destruct x as [| |r]; simpl; try discriminate.
    destruct (disconnect r) as [| |[|]] eqn:E; simpl; try discriminate.
    intros _. exists r. auto.
  - intros (r & -> & H). simpl. rewrite H. reflexivity.
Qed.

Lemma not_true_false (b : bool) : b <> true -> b = false.
Proof. destruct b; congruence. Qed.

Lemma selects_c_false x : ~ carries_c x -> selects_c x = false.
Proof. intros H. apply not_true_false. rewrite selects_c_carries. exact H. Qed.

Lemma selects_false x : ~ carries x -> selects x = false.
Proof. intros H. apply not_true_false. rewrite selects_carries. exact H. Qed.

Lemma disconnects_false x : ~ carries_disconnect x -> disconnects x = false.
Proof. intros H. apply not_true_false. rewrite disconnects_carries. exact H. Qed.

Lemma selects_true x : carries x -> selects x = true.
Proof. apply selects_carries. Qed.

Lemma disconnects_true x : carries_disconnect x -> disconnects x = true.
Proof. apply disconnects_carries. Qed.

(** C3.  A Media create whose input gives neither [post] nor [link] a
    [connect] or [create] makes the create validate hook call
    [addValidationError] with 'A media type relationship is required';
    the mutation is aborted: nothing is written and a structured error
    carrying that message is returned. *)
Theorem create_requires_a_relationship (inputData : MediaCreateInput) :
  ~ carries_c (mc_post inputData) ->
  ~ carries_c (mc_link inputData) ->
  (forall (V : Type) (add : string -> V -> V) (st : V),
      validate_create add inputData st
      = add "A media type relationship is required" st)
  /\ (forall (Store Item : Type) (write : MediaCreateInput -> Store -> Item * Store)
             (store : Store),
        Keystone.run_mutation "createMedia" (@validate_create (list string))
          write inputData store
        = (Keystone.mutation_errors
             {| Keystone.error_path := "createMedia";
                Keystone.error_messages := ["A media type relationship is required"] |},
           store)).
Proof.
  intros Hp Hl.
  assert (Hv : forall (V : Type) (add : string -> V -> V) (st : V),
             validate_create add inputData st = add msg_required st).
  { intros V add st. unfold validate_create. simpl.
    rewrite (selects_c_false _ Hp), (selects_c_false _ Hl). reflexivity. }
  split; [exact Hv|].
  intros Store Item write store. unfold Keystone.run_mutation.
  rewrite Hv. reflexivity.
Qed.

Lemma create_requires_a_relationship_witness :
  let inputData :=
    {| mc_description := val "a picture";
       mc_post := undefined;
       mc_link := val {| c_create := null; c_connect := undefined |} |} in
  validate_create Keystone.addValidationError inputData []
  = ["A media type relationship is required"].
Proof.
  intros inputData.
  refine (proj1 (create_requires_a_relationship inputData _ _) _ _ _).
  - intros (r & E & _). discriminate E.
  - intros (r & E & [[w H]|[c H]]); injection E as <-; discriminate H.
Defined.

Lemma carries_connect_to_id i : carries (val (connect_to_id i)).
Proof. exists (connect_to_id i). split; [reflexivity|]. left. eexists. reflexivity. Defined.

Lemma no_disconnect_connect_to_id i : ~ carries_disconnect (val (connect_to_id i)).
Proof. intros (r & E & H). injection E as <-. discriminate H. Defined.

Lemma no_carries_undefined : ~ carries undefined.
Proof. intros (r & E & _). discriminate E. Defined.

Lemma no_disconnect_undefined : ~ carries_disconnect undefined.
Proof. intros (r & E & _). discriminate E. Defined.

Lemma no_carries_disconnect_true : ~ carries (val disconnect_true).
Proof. intros (r & E & [[w H]|[c H]]); injection E as <-; discriminate H. Defined.

(** C8.  The update validate hook adds 'Cannot change media type
    relationship type' whenever [post] or [link] carries a disconnect; it
    adds 'Only one media type relationship can be selected' whenever both
    carry a connect or create, on relationship values of one operation
    each, as they reach the hook; and it adds nothing when no disconnect
    is carried and at most one of the two carries a connect or create. *)
Theorem update_validation (inputData : MediaUpdateInput)
    (V : Type) (add : string -> V -> V) (st : V) :
  (carries_disconnect (post inputData) \/ carries_disconnect (link inputData) ->
     validate_update add inputData st
     = add "Cannot change media type relationship type" st)
  /\ (one_operation (post inputData) -> one_operation (link inputData) ->
      carries (post inputData) -> carries (link inputData) ->
      validate_update add inputData st
      = add "Only one media type relationship can be selected" st)
  /\ (~ carries_disconnect (post inputData) ->
      ~ carries_disconnect (link inputData) ->
      ~ (carries (post inputData) /\ carries (link inputData)) ->
      validate_update add inputData st = st).
Proof.
  unfold validate_update. simpl. split; [|split].
  - intros [H|H]; apply disconnects_true in H; rewrite H.
    + reflexivity.
    + rewrite orb_true_r. reflexivity.
  - intros Op Ol Cp Cl.
    assert (Hp : ~ carries_disconnect (post inputData)).
    { intros H. apply Op. split; assumption. }
    assert (Hl : ~ carries_disconnect (link inputData)).
    { intros H. apply Ol. split; assumption. }
    rewrite (disconnects_false _ Hp), (disconnects_false _ Hl). simpl.
    rewrite (selects_true _ Cp), (selects_true _ Cl). reflexivity.
  - intros Hp Hl Hc.
    rewrite (disconnects_false _ Hp), (disconnects_false _ Hl). simpl.
    destruct (selects (post inputData)) eqn:Ep;
      destruct (selects (link inputData)) eqn:El; try reflexivity.
    exfalso. apply Hc. split; apply selects_carries; assumption.
Qed.

Lemma update_validation_witness :
  validate_update Keystone.addValidationError
    {| description := undefined; post := val disconnect_true; link := undefined |} []
  = ["Cannot change media type relationship type"]
  /\ validate_update Keystone.addValidationError
       {| description := undefined;
          post := val (connect_to_id "p1"); link := val (connect_to_id "l1") |} []
     = ["Only one media type relationship can be selected"]
  /\ validate_update Keystone.addValidationError
       {| description := val "new text";
          post := val (connect_to_id "p1"); link := undefined |} []
     = [].
Proof.
  split; [|split].
  - refine (proj1 (update_validation _ _ _ _) _).
    left. exists disconnect_true. split; reflexivity.
  - refine (proj1 (proj2 (update_validation _ _ _ _)) _ _ _ _); simpl.
    + intros [_ H]. exact (no_disconnect_connect_to_id _ H).
    + intros [_ H]. exact (no_disconnect_connect_to_id _ H).
    + apply carries_connect_to_id.
    + apply carries_connect_to_id.
  - refine (proj2 (proj2 (update_validation _ _ _ _)) _ _ _); simpl.
    + apply no_disconnect_connect_to_id.
    + apply no_disconnect_undefined.
    + intros [_ H]. exact (no_carries_undefined H).
Defined.

(** Why the second rule speaks of values of one operation: on a value
    that both connects and disconnects, which does not reach the hook,
    the hook would return after the first error. *)
Lemma update_validation_two_operations :
  let inputData :=
    {| description := undefined;
       post := val (connect_and_disconnect "p1");
       link := val (connect_to_id "l1") |} in
  ~ one_operation (post inputData)
  /\ validate_update Keystone.addValidationError inputData []
     = ["Cannot change media type relationship type"].
Proof.
  simpl. split; [|reflexivity].
  intros H. apply H. split.
  - exists (connect_and_disconnect "p1"). split; [reflexivity|].
    left. eexists. reflexivity.
  - exists (connect_and_disconnect "p1"). split; reflexivity.
Qed.

(** What [resolveInput.update] does, entry by entry: the first of
    [post], [link] that is supplied and has no truthy [disconnect] is
    kept and the other relationship is disconnected; if there is none,
    both keys are dropped. *)
Lemma resolveInput_update_cases (resolvedData : MediaUpdateInput) :
  resolveInput_update resolvedData =
    if truthy_obj (post resolvedData) && negb (disconnects (post resolvedData)) then
      {| description := description resolvedData;
         post := post resolvedData;
         link := val disconnect_true |}
    else if truthy_obj (link resolvedData) && negb (disconnects (link resolvedData)) then
      {| description := description resolvedData;
         post := val disconnect_true;
         link := link resolvedData |}
    else rest_of resolvedData.
Proof.
  unfold resolveInput_update, disconnects. simpl.
  destruct (truthy_obj (post resolvedData)); simpl;
    [destruct (truthy_bool (opt_chain (post resolvedData) disconnect)); simpl|];
    try reflexivity;
    (destruct (truthy_obj (link resolvedData)); simpl;
     [destruct (truthy_bool (opt_chain (link resolvedData) disconnect)); simpl|];
     reflexivity).
Qed.

Lemma carries_truthy x : carries x -> truthy_obj x = true.
Proof. intros (r & -> & _). reflexivity. Qed.

(** A supplied value that says something but carries no connect or
    create is skipped by the loop. *)
Lemma skipped x :
  says_something x -> ~ carries x ->
  truthy_obj x && negb (disconnects x) = false.
Proof.
  intros Hs Hc. destruct x as [| |r]; try reflexivity.
  destruct (Hs (ex_intro _ r eq_refl)) as [H|H]; [contradiction|].
  rewrite (disconnects_true _ H). reflexivity.
Qed.

Lemma apply_relation_carried created current x :
  carries x -> is_Some (apply_relation created current x).
Proof.
  intros (r & -> & [[w H]|[c H]]); simpl; rewrite H.
  - eauto.
  - destruct (connect r); eauto.
Qed.

(** C9.  On resolved data, where every relationship value that is
    supplied carries an operation: if exactly one of [post], [link]
    carries a connect or create, and no disconnect, the hook returns data
    that disconnects both and then applies that one, so that afterwards
    the item refers to it alone; if neither carries a connect or create,
    the hook drops both keys and both references stay as they were.  The
    first case needs nothing of the other values when it is [post] that
    carries the connect or create. *)
Theorem resolveInput_update_one_of (resolvedData : MediaUpdateInput) :
  (carries (post resolvedData) -> ~ carries_disconnect (post resolvedData) ->
   ~ carries (link resolvedData) ->
     resolveInput_update resolvedData
     = {| description := description resolvedData;
          post := post resolvedData;
          link := val disconnect_true |}
     /\ forall newPost newLink item,
          only_post (apply_update newPost newLink (resolveInput_update resolvedData) item))
  /\ (says_something (post resolvedData) ->
      carries (link resolvedData) -> ~ carries_disconnect (link resolvedData) ->
      ~ carries (post resolvedData) ->
        resolveInput_update resolvedData
        = {| description := description resolvedData;
             post := val disconnect_true;
             link := link resolvedData |}
        /\ forall newPost newLink item,
             only_link (apply_update newPost newLink (resolveInput_update resolvedData) item))
  /\ (says_something (post resolvedData) -> says_something (link resolvedData) ->
      ~ carries (post resolvedData) -> ~ carries (link resolvedData) ->
        resolveInput_update resolvedData = rest_of resolvedData
        /\ forall newPost newLink item,
             let item' := apply_update newPost newLink (resolveInput_update resolvedData) item in
             postId item' = postId item /\ linkId item' = linkId item).
Proof.
  rewrite resolveInput_update_cases.
  split; [|split].
  - intros Cp Np _.
    rewrite (carries_truthy _ Cp), (disconnects_false _ Np). simpl.
    split; [reflexivity|]. intros newPost newLink item. split; simpl.
    + apply apply_relation_carried, Cp.
    + reflexivity.
  - intros Sp Cl Nl Np.
    rewrite (skipped _ Sp Np), (carries_truthy _ Cl), (disconnects_false _ Nl). simpl.
    split; [reflexivity|]. intros newPost newLink item. split; simpl.
    + reflexivity.
    + apply apply_relation_carried, Cl.
  - intros Sp Sl Np Nl.
    rewrite (skipped _ Sp Np), (skipped _ Sl Nl).
    split; [reflexivity|]. intros newPost newLink item. split; reflexivity.
Qed.

Lemma says_something_undefined : says_something undefined.
Proof. intros [r E]. discriminate E. Defined.

Lemma says_something_carries x : carries x -> says_something x.
Proof. intros H _. left. exact H. Defined.

Lemma says_something_disconnect_true : says_something (val disconnect_true).
Proof. intros _. right. exists disconnect_true. split; reflexivity. Defined.

Lemma resolveInput_update_one_of_witness :
  resolveInput_update
    {| description := val "new text"; post := undefined; link := val (connect_to_id "l1") |}
  = {| description := val "new text";
       post := val disconnect_true;
       link := val (connect_to_id "l1") |}
  /\ resolveInput_update
       {| description := val "new text"; post := val disconnect_true; link := undefined |}
     = {| description := val "new text"; post := undefined; link := undefined |}
  /\ resolveInput_update
       {| description := val "new text"; post := val (connect_to_id "p1");
          link := val disconnect_true |}
     = {| description := val "new text"; post := val (connect_to_id "p1");
          link := val disconnect_true |}.
Proof.
  split; [|split].
  - refine (proj1 (proj1 (proj2 (resolveInput_update_one_of _)) _ _ _ _)); simpl.
    + apply says_something_undefined.
    + apply carries_connect_to_id.
    + apply no_disconnect_connect_to_id.
    + apply no_carries_undefined.
  - refine (proj1 (proj2 (proj2 (resolveInput_update_one_of _)) _ _ _ _)); simpl.
    + apply says_something_disconnect_true.
    + apply says_something_undefined.
    + apply no_carries_disconnect_true.
    + apply no_carries_undefined.
  - refine (proj1 (proj1 (resolveInput_update_one_of _) _ _ _)); simpl.
    + apply carries_connect_to_id.
    + apply no_disconnect_connect_to_id.
    + apply no_carries_disconnect_true.
Defined.

Lemma no_carries_empty_input : ~ carries (val empty_input).
Proof. intros (r & E & [[w H]|[c H]]); injection E as <-; discriminate H. Qed.

(** Why the statement speaks of values that carry an operation: an
    empty [post: {}], which is not resolved data, would be kept by the
    loop and [link] disconnected, whether or not [link] carries a
    connect. *)
Lemma resolveInput_update_empty_value :
  let only_empty :=
    {| description := undefined; post := val empty_input; link := undefined |} in
  let empty_and_connect :=
    {| description := undefined; post := val empty_input;
       link := val (connect_to_id "l1") |} in
  (~ carries (post only_empty) /\ ~ carries (link only_empty)
   /\ resolveInput_update only_empty
      = {| description := undefined; post := val empty_input; link := val disconnect_true |}
   /\ resolveInput_update only_empty <> rest_of only_empty)
  /\ (~ carries (post empty_and_connect) /\ carries (link empty_and_connect)
      /\ ~ carries_disconnect (link empty_and_connect)
      /\ resolveInput_update empty_and_connect
         = {| description := undefined; post := val empty_input;
              link := val disconnect_true |}
      /\ link (resolveInput_update empty_and_connect) <> link empty_and_connect).
Proof.
  simpl. split.
  - split; [apply no_carries_empty_input|].
    split; [apply no_carries_undefined|].
    split; [reflexivity|]. discriminate.
  - split; [apply no_carries_empty_input|].
    split; [apply carries_connect_to_id|].
    split; [apply no_disconnect_connect_to_id|].
    split; [reflexivity|]. discriminate.
Qed.

(** ** The [label] virtual field *)

(** C5.  [label] is declared with [virtual] and is computed by [resolve]
    from the item and the database: the title of the post [postId] names
    when [postId] is set ('[missing]' when there is no such post),
    whatever [linkId] is; otherwise the title of the link [linkId] names
    when [linkId] is set ('[missing]' when there is no such link);
    otherwise '?'. *)
Theorem label_resolves (item : MediaItem) (context : Db) :
  Keystone.field_config lists "Media" "label" = Some Keystone.virtual
  /\ (forall p, is_set (postId item) p ->
        resolve item context
        = match db_Post context !! p with
          | Some found => post_title found
          | None => "[missing]"
          end)
  /\ (forall l, unset (postId item) -> is_set (linkId item) l ->
        resolve item context
        = match db_Link context !! l with
          | Some found => link_title found
          | None => "[missing]"
          end)
  /\ (unset (postId item) -> unset (linkId item) -> resolve item context = "?").
Proof.
  assert (Hset : forall x i, is_set x i -> if_truthy x = Some i).
  { intros x i [-> Hi]. simpl.
    destruct (String.eqb_spec i ""); [contradiction|reflexivity]. }
  assert (Hunset : forall x, unset x -> if_truthy x = None).
  { intros x [->| ->]; reflexivity. }
  split; [reflexivity|]. unfold resolve, Post_findOne, Link_findOne.
  split; [|split].
  - intros p Hp. rewrite (Hset _ _ Hp).
    destruct (db_Post context !! p); reflexivity.
  - intros l Hp Hl. rewrite (Hunset _ Hp), (Hset _ _ Hl).
    destruct (db_Link context !! l); reflexivity.
  - intros Hp Hl. rewrite (Hunset _ Hp), (Hunset _ Hl). reflexivity.
Qed.

End MediaHooks.

Section MediaLabelExample.

Import UnionTypes.

Lemma label_resolves_witness :
  resolve
    {| media_id := "m1"; media_description := "both set";
       postId := Some "p1"; linkId := Some "l1" |}
    {| db_Post := {[ "p1" := {| post_id := "p1"; post_title := "Hello";
                                post_content := "" |} ]};
       db_Link := {[ "l1" := {| link_id := "l1"; link_title := "Elsewhere";
                                link_url := "" |} ]};
       db_Media := ∅ |}
  = "Hello"
  /\ resolve
       {| media_id := "m2"; media_description := "a dangling link";
          postId := None; linkId := Some "l9" |}
       {| db_Post := ∅; db_Link := ∅; db_Media := ∅ |}
     = "[missing]".
Proof.
  split.
  - refine (eq_trans (proj1 (proj2 (label_resolves _ _)) "p1" _) _).
    + split; [reflexivity|discriminate].
    + reflexivity.
  - refine (eq_trans (proj1 (proj2 (proj2 (label_resolves _ _))) "l9" _ _) _).
    + left. reflexivity.
    + split; [reflexivity|discriminate].
    + reflexivity.
Defined.

End MediaLabelExample.

(** ** The generated schema and the names of the data model *)

(** C6.  The datasource block reads exactly two environment variables:
    [DATABASE_URL] as [url] and [SHADOW_DATABASE_URL] as
    [shadowDatabaseUrl]; the generator block reads none. *)
Theorem datasource_reads_two_variables :
  Sandbox.env_reads (Sandbox.schema_datasource Sandbox.schema)
  = [ ("url", "DATABASE_URL"); ("shadowDatabaseUrl", "SHADOW_DATABASE_URL") ]
  /\ Sandbox.env_reads (Sandbox.schema_generator Sandbox.schema) = [].
Proof. split; reflexivity. Qed.

(** C7.  Each of User, Post, Link, Media, Thing, Todo and Settings names a
    list of a configuration file or a model of the generated schema. *)
Theorem data_model_has_the_named_instances :
  Forall (fun name => In name data_model_names)
    ["User"; "Post"; "Link"; "Media"; "Thing"; "Todo"; "Settings"].
Proof.
  repeat (constructor; [vm_compute; tauto|]). constructor.
Qed.

(** ** The relationship the access-control tests exercise *)

(** C4, as the code has it.  [UserToPostLimitedRead.posts] is [many: true]
    and [PostLimitedRead.author] is [many: false]: the relationship is
    one-to-many from users to posts. *)
Theorem posts_author_is_one_to_many :
  Keystone.field_config (AccessControlTest.lists (ID := ID))
    "UserToPostLimitedRead" "posts"
  = Some (Keystone.relationship "PostLimitedRead.author" true)
  /\ Keystone.field_config (AccessControlTest.lists (ID := ID))
       "PostLimitedRead" "author"
     = Some (Keystone.relationship "UserToPostLimitedRead.posts" false)
  /\ Keystone.cardinality (AccessControlTest.lists (ID := ID))
       "UserToPostLimitedRead" "posts"
     = Some Keystone.one_to_many
  /\ Keystone.cardinality (AccessControlTest.lists (ID := ID))
       "PostLimitedRead" "author"
     = Some Keystone.many_to_one.
Proof. repeat split; reflexivity. Qed.

(** C4 as stated fails: the relationship is not many-to-many from either
    side. *)
Lemma posts_author_not_many_to_many :
  Keystone.cardinality (AccessControlTest.lists (ID := ID))
    "UserToPostLimitedRead" "posts"
  <> Some Keystone.many_to_many
  /\ Keystone.cardinality (AccessControlTest.lists (ID := ID))
       "PostLimitedRead" "author"
     <> Some Keystone.many_to_many.
Proof. split; discriminate. Qed.

(** ** Access to [User] in the custom-session example *)

Section UserAccess.

Import Keystone CustomSession.

Lemma filter_all {A} (l : list A) : List.filter (fun _ => true) l = l.
Proof. induction l as [|a l IH]; simpl; [reflexivity|]. rewrite IH. reflexivity. Qed.

Lemma eval_merged_same_user (s : Session) (explicit : option (Where ID)) (r : Row ID) :
  eval_merged (merge_filter (filter_where (where_id (id_equals (itemId s)))) explicit) r = true ->
  row_id r = itemId s.
Proof.
  destruct explicit as [w|]; simpl; unfold id_eqb; intros H.
  - apply andb_true_iff in H as [H _]. apply bool_decide_eq_true in H. exact H.
  - apply bool_decide_eq_true in H. exact H.
Qed.

(** C10.  Without a session [hasSession] is false, so every operation on
    [User] is denied, and [isSameUserFilter] is false.  With a session
    [isSameUserFilter] is the filter [{ id: { equals: session.itemId } }]:
    update and delete reach only the row whose id is the session's
    [itemId], whatever [where] the caller gives, while query sees every
    row. *)
Theorem user_access_by_session (ctx : Context Session) :
  (session ctx = None ->
     hasSession ctx = false
     /\ isSameUserFilter ctx = filter_bool false
     /\ (sudo ctx = false ->
         operation_allowed User_access ctx = false
         /\ forall op explicit rows,
              permitted_rows User_access op ctx explicit rows = []))
  /\ (forall s, session ctx = Some s ->
        hasSession ctx = true
        /\ isSameUserFilter ctx = filter_where (where_id (id_equals (itemId s)))
        /\ (sudo ctx = false ->
            forall rows : list (Row ID),
              (forall op, op = op_update \/ op = op_delete ->
                 (forall explicit r,
                    In r (permitted_rows User_access op ctx explicit rows) ->
                    In r rows /\ row_id r = itemId s)
                 /\ (forall r, In r rows -> row_id r = itemId s ->
                       In r (permitted_rows User_access op ctx None rows)))
              /\ permitted_rows User_access op_query ctx None rows = rows)).
Proof.
  split.
  - intros Hs. unfold hasSession, isSameUserFilter. rewrite Hs.
    split; [reflexivity|]. split; [reflexivity|]. intros Hsudo.
    unfold operation_allowed, permitted_rows. rewrite Hsudo. simpl.
    unfold hasSession. rewrite Hs. split; [reflexivity|]. reflexivity.
  - intros s Hs. unfold hasSession, isSameUserFilter. rewrite Hs.
    split; [reflexivity|]. split; [reflexivity|]. intros Hsudo rows.
    assert (Hf : forall op, op = op_update \/ op = op_delete ->
              access_filter User_access op ctx
              = filter_where (where_id (id_equals (itemId s)))).
    { intros op [->| ->]; simpl; unfold isSameUserFilter; rewrite Hs; reflexivity. }
    split.
    + intros op Hop. unfold permitted_rows. rewrite Hsudo. simpl.
      unfold hasSession. rewrite Hs, (Hf op Hop). split.
      * intros explicit r Hin. apply filter_In in Hin as [Hin Hev].
        split; [exact Hin|]. exact (eval_merged_same_user s explicit r Hev).
      * intros r Hin Hid. apply filter_In. split; [exact Hin|].
        simpl. unfold id_eqb. apply bool_decide_eq_true. exact Hid.
    + unfold permitted_rows. rewrite Hsudo. simpl. unfold hasSession. rewrite Hs.
      simpl. apply filter_all.
Qed.

Lemma user_access_by_session_witness :
  permitted_rows User_access op_delete {| session := None; sudo := false |} None
    [ {| row_id := "u1"; row_text := [("name", "ada")]; row_ref := [] |} ]
  = []
  /\ permitted_rows User_access op_query
       {| session := Some {| listKey := "User"; itemId := "u2";
                             data := {| something := "" |} |};
          sudo := false |}
       None
       [ {| row_id := "u1"; row_text := [("name", "ada")]; row_ref := [] |};
         {| row_id := "u2"; row_text := [("name", "bob")]; row_ref := [] |} ]
     = [ {| row_id := "u1"; row_text := [("name", "ada")]; row_ref := [] |};
         {| row_id := "u2"; row_text := [("name", "bob")]; row_ref := [] |} ].
Proof.
  split.
  - exact (proj2 (proj2 (proj2 (proj1
             (user_access_by_session {| session := None; sudo := false |})
             eq_refl)) eq_refl) op_delete None _).
  - exact (proj2 (proj2 (proj2 (proj2
             (user_access_by_session
                {| session := Some {| listKey := "User"; itemId := "u2";
                                      data := {| something := "" |} |};
                   sudo := false |})
             _ eq_refl)) eq_refl _)).
Defined.

End UserAccess.

(** ** Relationship filtering with access control *)

Section RelationshipFiltering.

Import Keystone AccessControlTest.

Context {ID : Type} `{!EqDecision ID}.
Context (genId : nat -> ID) (sample : nat -> string).

(** Fresh ids are pairwise distinct. *)
Hypothesis genId_inj : forall a b, genId a = genId b -> a = b.

Lemma id_eqb_genId a b : id_eqb (genId a) (genId b) = Nat.eqb a b.
Proof.
  unfold id_eqb. destruct (Nat.eqb_spec a b) as [->|Hne].
  - apply bool_decide_eq_true. reflexivity.
  - apply bool_decide_eq_false. intros H. apply Hne, genId_inj, H.
Qed.

Local Arguments id_eqb : simpl never.

Create HintDb keystone.

#[local] Hint Unfold update_table table findOne visible permitted_rows related
  field_config other_side_single points_to connect_to createOne eval_merged
  merge_filter access_filter set_ref add_joins : keystone.

Ltac ks_step := progress (cbn; autounfold with keystone; rewrite ?id_eqb_genId).

(** The access configuration of [PostLimitedRead]. *)
Lemma PostLimitedRead_access :
  assoc "PostLimitedRead" (lists (ID := ID))
  = Some {| access :=
              {| operation := allowAll;
                 filter_query := fun _ =>
                   filter_where (where_field "name" (str_in ["Post 2"]));
                 filter_update := unfiltered;
                 filter_delete := unfiltered |};
            fields :=
              [ ("name", text);
                ("content", text);
                ("author", relationship "UserToPostLimitedRead.posts" false) ] |}.
Proof. reflexivity. Qed.

(** What a context without [sudo] sees of [PostLimitedRead]: the rows that
    pass the access filter and, when the caller gives a [where], pass it
    too. *)
Lemma visible_posts (ctx : Context unit) (explicit : option (Where ID))
    (rows : list (Row ID)) (r : Row ID) :
  sudo ctx = false ->
  In r (visible lists ctx "PostLimitedRead" explicit rows)
  <-> In r rows
      /\ eval_where (where_field "name" (str_in ["Post 2"])) r = true
      /\ match explicit with
         | Some w => eval_where w r = true
         | None => True
         end.
Proof.
  intros Hsudo. unfold visible. rewrite PostLimitedRead_access.
  unfold permitted_rows. rewrite Hsudo. simpl.
  rewrite filter_In. destruct explicit as [w|]; simpl.
  - rewrite andb_true_iff. tauto.
  - tauto.
Qed.

(** The outcome of the first test, whatever name is drawn for the user. *)
Lemma test_implicit_outcome :
  run (test_implicit genId sample)
  = Some {| item :=
              if String.eqb (sample 3) "bad" then JNull
              else
                JObj
                  [ ("id", JId (genId 3));
                    ("username", JStr (sample 3));
                    ("posts",
                     JArr
                       [ JObj
                           [ ("id", JId (genId 1));
                             ("author",
                              JObj [ ("id", JId (genId 3));
                                     ("username", JStr (sample 3)) ]) ] ]) ];
            user := genId 3;
            username := sample 3;
            postIds := [genId 0; genId 1; genId 2] |}.
Proof.
  unfold run, test_implicit, setup. repeat ks_step.
  destruct (String.eqb (sample 3) "bad") eqn:E; repeat (ks_step || rewrite E);
    reflexivity.
Qed.

(** The outcome of the second test. *)
Lemma test_explicit_outcome :
  run (test_explicit genId sample)
  = Some {| item :=
              if String.eqb (sample 3) "bad" then JNull
              else
                JObj
                  [ ("id", JId (genId 3));
                    ("username", JStr (sample 3));
                    ("posts", JArr []) ];
            user := genId 3;
            username := sample 3;
            postIds := [genId 0; genId 1; genId 2] |}.
Proof.
  unfold run, test_explicit, setup. repeat ks_step.
  destruct (String.eqb (sample 3) "bad") eqn:E; repeat (ks_step || rewrite E);
    reflexivity.
Qed.

Lemma not_bad (s : string) : s <> "bad" -> String.eqb s "bad" = false.
Proof. intros H. destruct (String.eqb_spec s "bad"); [contradiction|reflexivity]. Qed.

(** C1.  A [where] given on the [posts] relationship is AND-ed with the
    query access filter of [PostLimitedRead] (name in ['Post 2']): a post
    is returned only if it passes both.  In the test, where the [where]
    selects the id of 'Post 3', the user comes back with an empty [posts]
    list. *)
Theorem explicit_where_is_ANDed_with_access_filter :
  (forall (ctx : Context unit) (w : Where ID) (rows : list (Row ID)) (r : Row ID),
      sudo ctx = false ->
      In r (visible lists ctx "PostLimitedRead" (Some w) rows)
      <-> In r rows
          /\ eval_where (where_field "name" (str_in ["Post 2"])) r = true
          /\ eval_where w r = true)
  /\ (sample 3 <> "bad" ->
      run (test_explicit genId sample)
      = Some {| item :=
                  JObj
                    [ ("id", JId (genId 3));
                      ("username", JStr (sample 3));
                      ("posts", JArr []) ];
                user := genId 3;
                username := sample 3;
                postIds := [genId 0; genId 1; genId 2] |}).
Proof.
  split.
  - intros ctx w rows r Hsudo. exact (visible_posts ctx (Some w) rows r Hsudo).
  - intros Hname. rewrite test_explicit_outcome, (not_bad _ Hname). reflexivity.
Qed.

(** C2.  Without a [where], the query access filter of [PostLimitedRead]
    alone decides which related posts are seen.  In the test, the user
    connected to 'Post 2' and 'Post 3' comes back with exactly one post,
    the one named 'Post 2' ([postIds[1]]), whose [author] is the user. *)
Theorem access_filter_alone_restricts_posts :
  (forall (ctx : Context unit) (rows : list (Row ID)) (r : Row ID),
      sudo ctx = false ->
      In r (visible lists ctx "PostLimitedRead" None rows)
      <-> In r rows
          /\ eval_where (where_field "name" (str_in ["Post 2"])) r = true)
  /\ (sample 3 <> "bad" ->
      run (test_implicit genId sample)
      = Some {| item :=
                  JObj
                    [ ("id", JId (genId 3));
                      ("username", JStr (sample 3));
                      ("posts",
                       JArr
                         [ JObj
                             [ ("id", JId (genId 1));
                               ("author",
                                JObj [ ("id", JId (genId 3));
                                       ("username", JStr (sample 3)) ]) ] ]) ];
                user := genId 3;
                username := sample 3;
                postIds := [genId 0; genId 1; genId 2] |}).
Proof.
  split.
  - intros ctx rows r Hsudo. rewrite (visible_posts ctx None rows r Hsudo). tauto.
  - intros Hname. rewrite test_implicit_outcome, (not_bad _ Hname). reflexivity.
Qed.

End RelationshipFiltering.

Section RelationshipFilteringExamples.

Import Keystone AccessControlTest.

Lemma explicit_where_is_ANDed_with_access_filter_witness :
  run (test_explicit (fun n : nat => n) (fun n : nat => if Nat.eqb n 3 then "alice" else "lorem"))
  = Some {| item := JObj [ ("id", JId 3); ("username", JStr "alice"); ("posts", JArr []) ];
            user := 3;
            username := "alice";
            postIds := [0; 1; 2] |}.
Proof.
  refine (proj2 (explicit_where_is_ANDed_with_access_filter
                   (fun n : nat => n) _ (fun a b H => H)) _).
  discriminate.
Defined.

Lemma access_filter_alone_restricts_posts_witness :
  run (test_implicit (fun n : nat => n) (fun n : nat => if Nat.eqb n 3 then "alice" else "lorem"))
  = Some {| item :=
              JObj
                [ ("id", JId 3);
                  ("username", JStr "alice");
                  ("posts",
                   JArr [ JObj [ ("id", JId 1);
                                 ("author",
                                  JObj [ ("id", JId 3); ("username", JStr "alice") ]) ] ]) ];
            user := 3;
            username := "alice";
            postIds := [0; 1; 2] |}.
Proof.
  refine (proj2 (access_filter_alone_restricts_posts
                   (fun n : nat => n) _ (fun a b H => H)) _).
  discriminate.
Defined.

End RelationshipFilteringExamples.

(** ** The resolvers of the virtual-fields guide *)

Section StringFacts.

Lemma length_append (a b : string) :
  String.length (a ++ b) = String.length a + String.length b.
Proof. induction a as [|c a IH]; simpl; [reflexivity|]. rewrite IH. reflexivity. Qed.

Lemma length_substring_0 (m : nat) (s : string) :
  String.length (String.substring 0 m s) = Nat.min m (String.length s).
Proof.
  revert m. induction s as [|c s IH]; intros [|m]; simpl; try reflexivity.
  rewrite IH. reflexivity.
Qed.

Lemma substring_0_prefix (m : nat) (s : string) :
  exists rest, s = String.substring 0 m s ++ rest.
Proof.
  revert m. induction s as [|c s IH]; intros [|m]; simpl.
  - exists EmptyString. reflexivity.
  - exists EmptyString. reflexivity.
  - exists (String c s). reflexivity.
  - destruct (IH m) as [rest Hrest]. exists rest.
    change (String c s = String c (String.substring 0 m s ++ rest)).
    f_equal. exact Hrest.
Qed.

(** [s.slice(0, e)] is the prefix of [s] that [e] delimits. *)
Lemma slice_0 (s : string) (e : Z) :
  JSString.slice s 0 e
  = String.substring 0 (JSString.clamp_index (String.length s) e) s.
Proof.
  unfold JSString.slice. simpl.
  replace (JSString.clamp_index (String.length s) 0) with 0.
  - rewrite Nat.sub_0_r. reflexivity.
  - unfold JSString.clamp_index. simpl. reflexivity.
Qed.


End StringFacts.

Section Excerpt.

Import JSString VirtualFieldsGuide.

(** What [excerpt] returns when it cuts: the prefix of the content that
    [length - 3] delimits, followed by three full stops. *)
Lemma excerpt_cut (content : string) (length : Z) :
  content <> "" ->
  (length < Z.of_nat (String.length content))%Z ->
  excerpt (Some content) length
  = Some (String.substring 0 (clamp_index (String.length content) (length - 3)) content
          ++ "...").
Proof.
  intros Hne Hlt. unfold excerpt. simpl.
  destruct (String.eqb_spec content "") as [->|_]; [contradiction|]. simpl.
  destruct (Z.leb_spec (Z.of_nat (String.length content)) length); [lia|].
  rewrite slice_0. reflexivity.
Qed.

(** X1.  [excerpt] is null exactly when the content is null or empty,
    whatever length is asked for. *)
Theorem excerpt_null_iff (content : option string) (length : Z) :
  excerpt content length = None <-> content = None \/ content = Some "".
Proof.
  unfold excerpt. destruct content as [c|]; simpl.
  - destruct (String.eqb_spec c "") as [->|Hne]; simpl.
    + split; auto.
    + destruct (Z.of_nat (String.length c) <=? length)%Z;
        (split; [discriminate|]); intros [H|H]; congruence.
  - split; auto.
Qed.

(** X2.  For a requested length of at least 3 the excerpt never exceeds
    it: a content that fits is returned as it is, and a longer one is cut
    to exactly [length] characters, a prefix of the content followed by
    '...'. *)
Theorem excerpt_within_length (content : string) (length : Z) (r : string) :
  (3 <= length)%Z ->
  excerpt (Some content) length = Some r ->
  (Z.of_nat (String.length r) <= length)%Z
  /\ ((Z.of_nat (String.length content) <= length)%Z /\ r = content
      \/ (length < Z.of_nat (String.length content))%Z
         /\ Z.of_nat (String.length r) = length
         /\ exists kept rest, content = kept ++ rest /\ r = kept ++ "...").
Proof.
  intros H3 Hr.
  assert (Hne : content <> "").
  { intros ->. discriminate Hr. }
  destruct (Z.leb_spec (Z.of_nat (String.length content)) length) as [Hfit|Hlong].
  - assert (r = content) as ->.
    { unfold excerpt in Hr. simpl in Hr.
      destruct (String.eqb_spec content ""); [contradiction|]. simpl in Hr.
      destruct (Z.leb_spec (Z.of_nat (String.length content)) length); [|lia].
      congruence. }
    split; [exact Hfit|]. left. split; [exact Hfit|reflexivity].
  - rewrite (excerpt_cut _ _ Hne Hlong) in Hr. injection Hr as <-.
    assert (Hk : clamp_index (String.length content) (length - 3) = Z.to_nat (length - 3)).
    { unfold clamp_index. destruct (Z.ltb_spec (length - 3) 0); lia. }
    assert (Hlen : Z.of_nat (String.length
                     (String.substring 0 (clamp_index (String.length content) (length - 3))
                        content ++ "...")) = length).
    { rewrite length_append, length_substring_0, Hk. simpl. lia. }
    split; [lia|]. right. split; [exact Hlong|]. split; [exact Hlen|].
    destruct (substring_0_prefix (clamp_index (String.length content) (length - 3)) content)
      as [rest Hrest].
    eexists. exists rest. split; [exact Hrest|reflexivity].
Qed.

Lemma excerpt_within_length_witness :
  (Z.of_nat (String.length "Once u...") <= 9)%Z.
Proof.
  refine (proj1 (excerpt_within_length "Once upon a time" 9 "Once u..." _ _)).
  - lia.
  - reflexivity.
Defined.



(** X4.  For a requested length of at least 3, taking the excerpt of an
    excerpt with the same length gives the same excerpt. *)
Theorem excerpt_idempotent (content : option string) (length : Z) (r : string) :
  (3 <= length)%Z ->
  excerpt content length = Some r ->
  excerpt (Some r) length = Some r.
Proof.
  intros H3 Hr. destruct content as [c|]; [|discriminate Hr].
  destruct (excerpt_within_length c length r H3 Hr) as [Hle Hshape].
  assert (Hne : r <> "").
  { destruct Hshape as [[_ ->]|(_ & Hlen & _)].
    - intros ->. discriminate Hr.
    - intros ->. simpl in Hlen. lia. }
  unfold excerpt. simpl.
  destruct (String.eqb_spec r ""); [contradiction|]. simpl.
  destruct (Z.leb_spec (Z.of_nat (String.length r)) length); [reflexivity|lia].
Qed.

Lemma excerpt_idempotent_witness :
  excerpt (Some "Once u...") 9 = Some "Once u...".
Proof.
  refine (excerpt_idempotent (Some "Once upon a time") 9 "Once u..." _ _).
  - lia.
  - reflexivity.
Defined.

End Excerpt.

Section Counts.

Import JSString VirtualFieldsGuide.

Lemma split_from_length_cons (sep s : string) (c : Ascii.ascii) :
  length (match split_from sep s 0 with
          | piece :: pieces => String c piece :: pieces
          | [] => [String c EmptyString]
          end)
  = length (split_from sep s 0) \/ split_from sep s 0 = [].
Proof. destruct (split_from sep s 0); [right|left]; reflexivity. Qed.

Lemma split_from_not_nil (sep s : string) (skip : nat) : split_from sep s skip <> [].
Proof.
  revert skip. induction s as [|c s IH]; intros skip; cbn [split_from]; [discriminate|].
  destruct skip as [|k]; [|apply IH].
  destruct (String.prefix sep (String c s)); [discriminate|].
  destruct (split_from sep s 0); discriminate.
Qed.

Lemma split_from_length_keep (sep s : string) (c : Ascii.ascii) :
  length (match split_from sep s 0 with
          | piece :: pieces => String c piece :: pieces
          | [] => [String c EmptyString]
          end)
  = length (split_from sep s 0).
Proof.
  destruct (split_from_length_cons sep s c) as [H|H]; [exact H|].
  destruct (split_from_not_nil _ _ _ H).
Qed.

(** Splitting at a single character gives one piece more than the
    character has occurrences. *)
Lemma split_char_length (c : Ascii.ascii) (s : string) :
  length (split (String c EmptyString) s) = S (count_char c s).
Proof.
  unfold split. induction s as [|a s IH]; [reflexivity|].
  cbn [split_from String.prefix count_char String.length Nat.sub].
  destruct (Ascii.ascii_dec c a) as [<-|Hne].
  - rewrite Ascii.eqb_refl.
    replace (String.prefix "" s) with true by (destruct s; reflexivity).
    cbn [length]. rewrite IH. reflexivity.
  - destruct (Ascii.eqb_spec a c) as [->|_]; [contradiction|].
    rewrite split_from_length_keep, IH. reflexivity.
Qed.

Lemma split_paragraphs_bound (s : string) :
  2 * length (split_from (String LF (String LF EmptyString)) s 0) <= count_char LF s + 2
  /\ 2 * length (split_from (String LF (String LF EmptyString)) s 1) + starts_with_LF s
     <= count_char LF s + 2.
Proof.
  induction s as [|c s [IHa IHb]]; [simpl; lia|].
  split.
  - cbn [split_from count_char String.length Nat.sub].
    destruct (String.prefix (String LF (String LF EmptyString)) (String c s)) eqn:Hp.
    + cbn [String.prefix] in Hp.
      destruct (Ascii.ascii_dec LF c) as [<-|]; [|discriminate Hp].
      destruct s as [|b s']; cbn [String.prefix] in Hp; [discriminate Hp|].
      destruct (Ascii.ascii_dec LF b) as [<-|]; [|discriminate Hp].
      cbn [length]. cbn [starts_with_LF] in IHb.
      rewrite Ascii.eqb_refl in *. lia.
    + rewrite split_from_length_keep. destruct (Ascii.eqb c LF); lia.
  - cbn [split_from count_char starts_with_LF].
    destruct (Ascii.eqb c LF); lia.
Qed.

Lemma counts_content (item_content : option string) :
  (if truthy_str item_content then default "" item_content else "")
  = default "" item_content.
Proof.
  destruct item_content as [c|]; simpl; [|reflexivity].
  destruct (String.eqb_spec c "") as [->|_]; reflexivity.
Qed.

Example SPACE_and_DOT : String SPACE (String DOT EmptyString) = " .".
Proof. reflexivity. Qed.

(** X5.  [counts] reports one word more than the content has spaces and
    one sentence more than it has full stops, a null content counting as
    the empty one: an empty post has one word and one sentence. *)
Theorem counts_words_and_sentences (item_content : option string) :
  words (counts item_content) = S (count_char SPACE (default "" item_content))
  /\ sentences (counts item_content) = S (count_char DOT (default "" item_content)).
Proof.
  unfold counts. rewrite counts_content. cbn [words sentences].
  split.
  - exact (split_char_length SPACE _).
  - exact (split_char_length DOT _).
Qed.

(** X6.  [counts] reports at least one paragraph, and every paragraph
    beyond the first costs two line feeds of the content: blank lines that
    overlap are counted once. *)
Theorem counts_paragraphs_bound (item_content : option string) :
  1 <= paragraphs (counts item_content)
  /\ 2 * (paragraphs (counts item_content) - 1)
     <= count_char LF (default "" item_content).
Proof.
  unfold counts. rewrite counts_content. cbn [paragraphs]. unfold split.
  pose proof (proj1 (split_paragraphs_bound (default "" item_content))) as Hb.
  pose proof (split_from_not_nil (String LF (String LF EmptyString))
                (default "" item_content) 0) as Hn.
  destruct (split_from (String LF (String LF EmptyString)) (default "" item_content) 0)
    as [|p ps]; [contradiction|].
  cbn [length] in *. lia.
Qed.

End Counts.

(** ** More on the [Media] hooks *)

Section MediaHooksMore.

Import UnionTypes.

(** X7.  The create validate hook lets a Media through exactly when one
    of [post], [link] carries a connect or create and the other does not;
    when both do, it reports 'Only one media type relationship can be
    selected'. *)
Theorem validate_create_one_or_both (inputData : MediaCreateInput)
    (V : Type) (add : string -> V -> V) (st : V) :
  (carries_c (mc_post inputData) /\ ~ carries_c (mc_link inputData)
   \/ ~ carries_c (mc_post inputData) /\ carries_c (mc_link inputData) ->
     validate_create add inputData st = st)
  /\ (carries_c (mc_post inputData) -> carries_c (mc_link inputData) ->
        validate_create add inputData st
        = add "Only one media type relationship can be selected" st).
Proof.
  unfold validate_create. simpl. split.
  - intros [[Hp Hl]|[Hp Hl]].
    + rewrite (proj2 (selects_c_carries _) Hp), (selects_c_false _ Hl). reflexivity.
    + rewrite (selects_c_false _ Hp), (proj2 (selects_c_carries _) Hl). reflexivity.
  - intros Hp Hl.
    rewrite (proj2 (selects_c_carries _) Hp), (proj2 (selects_c_carries _) Hl).
    reflexivity.
Qed.

Lemma validate_create_one_or_both_witness :
  validate_create Keystone.addValidationError
    {| mc_description := undefined;
       mc_post := val {| c_create := val [("title", "A post")]; c_connect := null |};
       mc_link := null |} []
  = []
  /\ validate_create Keystone.addValidationError
       {| mc_description := undefined;
          mc_post := val {| c_create := val [("title", "A post")]; c_connect := null |};
          mc_link := val {| c_create := undefined;
                            c_connect := val {| where_id := "l1" |} |} |} []
     = ["Only one media type relationship can be selected"].
Proof.
  split.
  - refine (proj1 (validate_create_one_or_both _ _ _ _) _). left. split.
    + eexists. split; [reflexivity|]. right. eexists. reflexivity.
    + intros (r & E & _). discriminate E.
  - refine (proj2 (validate_create_one_or_both _ _ _ _) _ _).
    + eexists. split; [reflexivity|]. right. eexists. reflexivity.
    + eexists. split; [reflexivity|]. left. eexists. reflexivity.
Defined.

(** X8.  Neither validate hook reports more than once: each either leaves
    the validation state as it is or calls [addValidationError] a single
    time, with one of its two messages. *)
Theorem validate_reports_at_most_once (created : MediaCreateInput)
    (updated : MediaUpdateInput) (V : Type) (add : string -> V -> V) (st : V) :
  (validate_create add created st = st
   \/ validate_create add created st = add "A media type relationship is required" st
   \/ validate_create add created st
      = add "Only one media type relationship can be selected" st)
  /\ (validate_update add updated st = st
      \/ validate_update add updated st
         = add "Cannot change media type relationship type" st
      \/ validate_update add updated st
         = add "Only one media type relationship can be selected" st).
Proof.
  unfold validate_create, validate_update. simpl. split.
  - destruct (selects_c (mc_post created)), (selects_c (mc_link created)); simpl; auto.
  - destruct (disconnects (post updated)), (disconnects (link updated)); simpl; auto;
      destruct (selects (post updated)), (selects (link updated)); simpl; auto.
Qed.

(** X9.  [resolveInput.update] is idempotent, and data that supplies
    neither [post] nor [link] passes through unchanged. *)
Theorem resolveInput_update_idempotent (resolvedData : MediaUpdateInput) :
  resolveInput_update (resolveInput_update resolvedData)
  = resolveInput_update resolvedData
  /\ (post resolvedData = undefined -> link resolvedData = undefined ->
        resolveInput_update resolvedData = resolvedData).
Proof.
  split.
  - rewrite (resolveInput_update_cases resolvedData).
    destruct (truthy_obj (post resolvedData) && negb (disconnects (post resolvedData)))
      eqn:Ep.
    + rewrite resolveInput_update_cases. simpl. rewrite Ep. reflexivity.
    + destruct (truthy_obj (link resolvedData) && negb (disconnects (link resolvedData)))
        eqn:El.
      * rewrite resolveInput_update_cases. simpl. rewrite El. reflexivity.
      * rewrite resolveInput_update_cases. reflexivity.
  - intros Hp Hl. rewrite resolveInput_update_cases, Hp, Hl. simpl.
    destruct resolvedData as [d p l]. simpl in *. subst. reflexivity.
Qed.

Lemma resolveInput_update_idempotent_witness :
  resolveInput_update
    {| description := val "only the text"; post := undefined; link := undefined |}
  = {| description := val "only the text"; post := undefined; link := undefined |}.
Proof.
  exact (proj2 (resolveInput_update_idempotent
                  {| description := val "only the text";
                     post := undefined; link := undefined |}) eq_refl eq_refl).
Defined.

(** X10.  Whatever the resolved data, what [resolveInput.update] returns
    keeps the description, never carries a connect or create on both
    [post] and [link], and has either both keys or neither. *)
Theorem resolveInput_update_never_both (resolvedData : MediaUpdateInput) :
  description (resolveInput_update resolvedData) = description resolvedData
  /\ ~ (carries (post (resolveInput_update resolvedData))
        /\ carries (link (resolveInput_update resolvedData)))
  /\ (given (post (resolveInput_update resolvedData))
      <-> given (link (resolveInput_update resolvedData))).
Proof.
  rewrite resolveInput_update_cases.
  destruct (truthy_obj (post resolvedData) && negb (disconnects (post resolvedData)))
    eqn:Ep; simpl.
  - apply andb_true_iff in Ep as [Ep _].
    split; [reflexivity|]. split.
    + intros [_ H]. exact (no_carries_disconnect_true H).
    + destruct (post resolvedData) as [| |r]; try discriminate Ep.
      split; intros _; eexists; reflexivity.
  - destruct (truthy_obj (link resolvedData) && negb (disconnects (link resolvedData)))
      eqn:El; simpl.
    + apply andb_true_iff in El as [El _].
      split; [reflexivity|]. split.
      * intros [H _]. exact (no_carries_disconnect_true H).
      * destruct (link resolvedData) as [| |r]; try discriminate El.
        split; intros _; eexists; reflexivity.
    + split; [reflexivity|]. split.
      * intros [H _]. exact (no_carries_undefined H).
      * split; intros [r E]; discriminate E.
Qed.

End MediaHooksMore.

(** ** More on the custom-session access functions *)

Section SessionFilter.

Import Keystone CustomSession.

(** X11.  With a session, the filter [isSameUserFilter] returns is fixed
    by the session's [itemId] alone: two sessions get the same filter
    exactly when their [itemId] agree, whatever their [listKey] and
    [data]. *)
Theorem isSameUserFilter_by_itemId (ctx1 ctx2 : Context Session) (s1 s2 : Session) :
  session ctx1 = Some s1 ->
  session ctx2 = Some s2 ->
  (isSameUserFilter ctx1 = isSameUserFilter ctx2 <-> itemId s1 = itemId s2).
Proof.
  intros H1 H2. unfold isSameUserFilter. rewrite H1, H2. split.
  - intros H. injection H as H. exact H.
  - intros ->. reflexivity.
Qed.

Lemma isSameUserFilter_by_itemId_witness :
  isSameUserFilter
    {| session := Some {| listKey := "User"; itemId := "u1";
                          data := {| something := "a" |} |};
       sudo := false |}
  = isSameUserFilter
      {| session := Some {| listKey := "Post"; itemId := "u1";
                            data := {| something := "b" |} |};
         sudo := false |}.
Proof.
  refine (proj2 (isSameUserFilter_by_itemId
                   {| session := Some {| listKey := "User"; itemId := "u1";
                                         data := {| something := "a" |} |};
                      sudo := false |}
                   {| session := Some {| listKey := "Post"; itemId := "u1";
                                         data := {| something := "b" |} |};
                      sudo := false |}
                   _ _ eq_refl eq_refl) _).
  reflexivity.
Defined.

(** X12.  [isSameUserFilter] never lets every row through, and it
    refuses every row exactly when [hasSession] refuses the operation. *)
Theorem isSameUserFilter_and_hasSession (ctx : Context Session) :
  isSameUserFilter ctx <> filter_bool true
  /\ (isSameUserFilter ctx = filter_bool false <-> hasSession ctx = false).
Proof.
  unfold isSameUserFilter, hasSession. destruct (session ctx) as [s|].
  - split; [discriminate|]. split; discriminate.
  - split; [discriminate|]. split; reflexivity.
Qed.

End SessionFilter.

(** ** The database url of the example configuration *)

Section DatabaseUrl.

Import ExampleConfig.

(** X13.  The database url is the value of [DATABASE_URL] whenever the
    variable is defined, even as the empty string, and the sqlite file of
    the example only when it is not defined; no other variable changes
    it. *)
Theorem url_from_environment (env : gmap string string) :
  (forall v, env !! "DATABASE_URL" = Some v -> url env = val v)
  /\ (env !! "DATABASE_URL" = None -> url env = val "file:./keystone-example.db")
  /\ (forall v, url (<["DATABASE_URL" := v]> env) = val v)
  /\ (forall name v, name <> "DATABASE_URL" -> url (<[name := v]> env) = url env).
Proof.
  unfold url, process_env. repeat split.
  - intros v Hv. rewrite Hv. reflexivity.
  - intros Hv. rewrite Hv. reflexivity.
  - intros v. rewrite lookup_insert_eq. reflexivity.
  - intros name v Hne. rewrite lookup_insert_ne by exact Hne. reflexivity.
Qed.

Lemma url_from_environment_witness :
  url {[ "DATABASE_URL" := "" ]} = val ""
  /\ url {[ "SHADOW_DATABASE_URL" := "postgres://shadow" ]}
     = val "file:./keystone-example.db".
Proof.
  split.
  - refine (proj1 (url_from_environment _) "" _). reflexivity.
  - refine (proj1 (proj2 (url_from_environment _)) _). reflexivity.
Defined.

End DatabaseUrl.

(** ** The string primitives at work *)

Example split_words : JSString.split " " "a b  c" = ["a"; "b"; ""; "c"].
Proof. reflexivity. Qed.

Example split_overlapping : JSString.split "aa" "aaa" = [""; "a"].
Proof. reflexivity. Qed.

Example split_empty_content : JSString.split " " "" = [""].
Proof. reflexivity. Qed.

Example slice_negative_end : JSString.slice "abcdefgh" 0 (-1) = "abcdefg".
Proof. reflexivity. Qed.

Example excerpt_longer_than_content :
  VirtualFieldsGuide.excerpt (Some "abcdefgh") 2 = Some "abcdefg...".
Proof. reflexivity. Qed.
